(** * fp_book_club_ts: Option, Either and SimpleRNG

    A shallow embedding of
    - [src/fpbookclub/error_handling/option.ts] (module [option_ts]),
    - the TypeScript listings of [src/site/src/chapter_4.md]
      (module [chapter_4]),
    - [src/fpbookclub/state/RNG.ts] (module [RNG_ts]),
    followed by the properties of these functions.

    TypeScript functions may change the world and may throw.  They are
    embedded in the monad [Eff W] of module [Js]: a computation takes the
    world and gives back an outcome (a returned value or a thrown value)
    and the world it leaves. *)

From Stdlib Require Import ZArith Lia List String Bool.
Import ListNotations.

Local Open Scope Z_scope.

(* ===================================================================== *)
(** ** The JavaScript fragment the listings run on *)
(* ===================================================================== *)

Module Js.

(** An [Error] object, as far as the listings look at it. *)
Record Error : Type := mkError { name : string; message : string }.

(** The values a [throw] statement is given in this development:
    [Error] objects (of any subclass, told apart by [name]), the
    primitives [undefined], [null], booleans, strings and Symbols, and
    plain objects (object literals, which convert to a string by
    [Object.prototype.toString]). *)
#[warnings="-register-all"]
Inductive Value : Type :=
| Undefined
| Null
| Bool (b : bool)
| Str (s : string)
| Sym (description : string)
| Obj (properties : list (string * Value))
| Err (e : Error).

(** [v instanceof Error]. *)
Definition instanceof_Error (v : Value) : bool :=
  match v with Err _ => true | _ => false end.

(** [Error.prototype.toString]. *)
Definition Error_toString (e : Error) : string :=
  if String.eqb (name e) EmptyString then message e
  else if String.eqb (message e) EmptyString then name e
  else (name e ++ ": " ++ message e)%string.

(** How a call ends. *)
Inductive Outcome (A : Type) : Type :=
| Returned (a : A)
| Thrown (v : Value).
Arguments Returned {A} a.
Arguments Thrown {A} v.

(** The abstract operation [ToString]: it throws a [TypeError] on a
    Symbol, and a plain object gives ["[object Object]"] whatever its
    properties are. *)
Definition ToString (v : Value) : Outcome string :=
  match v with
  | Undefined => Returned "undefined"%string
  | Null => Returned "null"%string
  | Bool true => Returned "true"%string
  | Bool false => Returned "false"%string
  | Str s => Returned s
  | Sym _ =>
      Thrown (Err (mkError "TypeError"
                     "Cannot convert a Symbol value to a string"))
  | Obj _ => Returned "[object Object]"%string
  | Err e => Returned (Error_toString e)
  end.

(** A computation over worlds [W]. *)
Definition Eff (W A : Type) : Type := W -> Outcome A * W.

Section Monad.
Context {W : Type}.

(** [return a;] *)
Definition ret {A} (a : A) : Eff W A := fun w => (Returned a, w).

(** [throw v;] *)
Definition throw {A} (v : Value) : Eff W A := fun w => (Thrown v, w).

(** Sequencing: a throw in [m] skips [k]. *)
Definition bind {A B} (m : Eff W A) (k : A -> Eff W B) : Eff W B :=
  fun w =>
    match m w with
    | (Returned a, w') => k a w'
    | (Thrown v, w') => (Thrown v, w')
    end.

(** [try { body } catch (e) { handler }] *)
Definition try_catch {A} (body : Eff W A) (handler : Value -> Eff W A)
  : Eff W A :=
  fun w =>
    match body w with
    | (Returned a, w') => (Returned a, w')
    | (Thrown v, w') => handler v w'
    end.
End Monad.

(** [new Error(msg)]: the message is [ToString(msg)], and the fault of
    [ToString] if it throws; when [msg] is [undefined] the object has no
    message of its own and reads the prototype's empty one. *)
Definition new_Error {W} (msg : Value) : Eff W Error :=
  match msg with
  | Undefined => ret (mkError "Error" EmptyString)
  | _ =>
      match ToString msg with
      | Returned s => ret (mkError "Error" s)
      | Thrown v => throw v
      end
  end.

(** A callback that only computes: it returns [f a] and leaves the world
    alone. *)
Definition pure {W A B} (f : A -> B) : A -> Eff W B := fun a => ret (f a).

(** A computation returns normally from world [w]. *)
Definition returns {W A} (m : Eff W A) (w : W) : Prop :=
  exists a w', m w = (Returned a, w').

(** A callback is total: it returns normally on every argument, from
    every world. *)
Definition total {W A B} (f : A -> Eff W B) : Prop :=
  forall a w, returns (f a) w.

(** The side-effect counter of the tests: the world gains a counter, and
    [counted f] bumps it each time [f] is called. *)
Definition counted {W A B} (f : A -> Eff W B) : A -> Eff (nat * W) B :=
  fun a cw =>
  match f a (snd cw) with
  | (r, w') => (r, (S (fst cw), w'))
  end.

(** The call log of the tests: the world gains the list of the arguments
    the callback was called with, in the order of the calls. *)
Definition logged {W A B} (f : A -> Eff W B) : A -> Eff (list A * W) B :=
  fun a lw =>
  match f a (snd lw) with
  | (r, w') => (r, (fst lw ++ [a], w'))
  end.

End Js.

Import Js.

Declare Scope eff_scope.
Delimit Scope eff_scope with eff.
Notation "x <- m ;; k" := (bind m (fun x => k))
  (at level 61, m at next level, right associativity) : eff_scope.
Local Open Scope eff_scope.

(* ===================================================================== *)
(** ** src/fpbookclub/error_handling/option.ts *)
(* ===================================================================== *)

Module option_ts.

(** [type Option<A> = Some<A> | None<A>]; the [tag] field is the
    constructor. *)
Inductive Option (A : Type) : Type :=
| Some (value : A)
| None.
Arguments Some {A} value.
Arguments None {A}.

(** [export const NONE: Option<never> = new None();] *)
Definition NONE {A} : Option A := None.

Section OptionBase.
Context {W : Type}.

(** option.ts:4-6 *)
Definition filter {A} (this : Option A) (p : A -> Eff W bool)
  : Eff W (Option A) :=
  e <- new_Error (Str "Not implemented") ;; throw (Err e).

(** option.ts:8-10 *)
Definition flatMap {A B} (this : Option A) (f : A -> Eff W (Option B))
  : Eff W (Option B) :=
  e <- new_Error (Str "Not implemented") ;; throw (Err e).

(** option.ts:12-15 *)
Definition getOrElse {U} (this : Option U) (onEmpty : unit -> Eff W U)
  : Eff W U :=
  match this with
  | Some value => ret value
  | None => onEmpty tt
  end.

(** option.ts:17-20 *)
Definition map {A B} (this : Option A) (f : A -> Eff W B)
  : Eff W (Option B) :=
  match this with
  | None => ret NONE
  | Some value => (b <- f value ;; ret (Some b))
  end.

(** option.ts:22-24 *)
Definition orElse {U} (this : Option U) (ou : unit -> Eff W (Option U))
  : Eff W (Option U) :=
  e <- new_Error (Str "Not implemented") ;; throw (Err e).
End OptionBase.

End option_ts.

(* ===================================================================== *)
(** ** src/site/src/chapter_4.md *)
(* ===================================================================== *)

Module chapter_4.

(** Modelled from the spec: the [List] module of chapter 3 ([List()],
    [Cons], [cons], [foldRight]) is not among the sources.  The spec (§6)
    asks of it an ordered sequence built from literal elements with a right
    fold and order-preserving traversal: lists, with [List()] as [nil],
    [new Cons(h, t)] and [cons(h, t)] as [h :: t], and the right fold that
    combines the head with the fold of the tail. *)
Fixpoint foldRight {W A B} (l : list A) (z : B) (f : A -> B -> Eff W B)
  : Eff W B :=
  match l with
  | [] => ret z
  | h :: t => (r <- foldRight t z f ;; f h r)
  end.

(** *** The first listing: [mean] with an exception *)
Module ExceptionListing.

Section Mean.
Context {W number : Type}.
(** [sum] of the List module and the division of a number by a length are
    not among the sources; they are taken as they come. *)
Variable sum : list number -> number.
Variable divide : number -> nat -> number.

(** chapter_4.md:21-26 *)
Definition mean (xs : list number) : Eff W number :=
  match xs with
  | [] =>
      (e <- new_Error (Str "Attempt to take mean of empty list") ;;
       throw (Err e))
  | _ :: _ => ret (divide (sum xs) (List.length xs))
  end.

End Mean.

End ExceptionListing.

(** *** The [Option] listings *)
Module OptionListing.

Import option_ts(Option(..)).

(** chapter_4.md:150 and 152, the smart constructors. *)
Definition none {A} : Option A := None.
Definition some {A} (a : A) : Option A := Some a.

Section OptionBase.
Context {W : Type}.

(** chapter_4.md:392-395 *)
Definition getOrElse {U} (this : Option U) (onEmpty : unit -> Eff W U)
  : Eff W U :=
  match this with
  | None => onEmpty tt
  | Some value => ret value
  end.

(** chapter_4.md:397-400 *)
Definition map {A B} (this : Option A) (f : A -> Eff W B)
  : Eff W (Option B) :=
  match this with
  | None => ret none
  | Some value => (b <- f value ;; ret (some b))
  end.

(** chapter_4.md:388-390 *)
Definition flatMap {A B} (this : Option A) (f : A -> Eff W (Option B))
  : Eff W (Option B) :=
  o <- map this f ;; getOrElse o (fun _ => ret none).

(** chapter_4.md:384-386 *)
Definition filter {A} (this : Option A) (p : A -> Eff W bool)
  : Eff W (Option A) :=
  flatMap this (fun a => c <- p a ;; if c then ret (some a) else ret none).

(** chapter_4.md:402-404 *)
Definition orElse {U} (this : Option U) (ou : unit -> Eff W (Option U))
  : Eff W (Option U) :=
  o <- map this (fun a => ret (some a)) ;; getOrElse o (fun _ => ou tt).

(** chapter_4.md:559-562 *)
Definition map2 {A B C} (oa : Option A) (ob : Option B)
  (f : A -> B -> Eff W C) : Eff W (Option C) :=
  flatMap oa (fun a => map ob (fun b => f a b)).

(** chapter_4.md:593-599 *)
Definition Try {A} (f : unit -> Eff W A) : Eff W (Option A) :=
  try_catch (a <- f tt ;; ret (some a)) (fun e => ret none).

(** chapter_4.md:618-627 *)
Definition sequence {A} (ls : list (Option A)) : Eff W (Option (list A)) :=
  match ls with
  | [] => ret none
  | _ :: _ =>
      foldRight ls (some [])
        (fun oa ol => map2 ol oa (fun la a => ret (a :: la)))
  end.

(** chapter_4.md:658-668; the argument [f(a)] is evaluated before [map2]
    is entered. *)
Definition traverse {A B} (ls : list A) (f : A -> Eff W (Option B))
  : Eff W (Option (list B)) :=
  match ls with
  | [] => ret none
  | _ :: _ =>
      foldRight ls (some [])
        (fun a ol => ob <- f a ;; map2 ol ob (fun la b => ret (b :: la)))
  end.

End OptionBase.

(** chapter_4.md:503-504 *)
Definition lift {W A B} (f : A -> Eff W B) : Option A -> Eff W (Option B) :=
  fun o => map o f.

Section Numbers.
Context {W number : Type}.
(** [sum] of the List module, the division of a number by a length,
    [Math.pow(x - m, 2)], [parseInt(s, 10)] and [isNaN] are not among the
    sources; they are taken as they come.  [map] of the List module, which
    these listings give callbacks that only compute, is [List.map]. *)
Variable sum : list number -> number.
Variable divide : number -> nat -> number.
Variable pow_diff_2 : number -> number -> number.
Variable parseInt : string -> number.
Variable isNaN : number -> bool.

(** chapter_4.md:85-90 *)
Definition mean (xs : list number) : Option number :=
  match xs with
  | [] => None
  | _ :: _ => Some (divide (sum xs) (List.length xs))
  end.

(** chapter_4.md:471-474 *)
Definition variance (xs : list number) : Eff W (Option number) :=
  flatMap (mean xs)
    (fun m => ret (mean (List.map (fun x => pow_diff_2 x m) xs))).

(** chapter_4.md:532-538 *)
Definition parseIntOpt (s : string) : Option number :=
  let i := parseInt s in
  if isNaN i then none else some i.

(** chapter_4.md:637-638 *)
Definition parseInts (a : list string) : Eff W (Option (list number)) :=
  sequence (List.map parseIntOpt a).

End Numbers.

(** chapter_4.md:670, [sequence] by [traverse]. *)
Module Exercise_4_5.
Definition sequence {W A} (ls : list (Option A))
  : Eff W (Option (list A)) :=
  traverse ls (fun oa => ret oa).
End Exercise_4_5.

End OptionListing.

(** *** The [Either] listings *)
Module EitherListing.

(** chapter_4.md:681-712 *)
Inductive Either (E A : Type) : Type :=
| Left (value : E)
| Right (value : A).
Arguments Left {E A} value.
Arguments Right {E A} value.

(** chapter_4.md:714 and 716 *)
Definition left {E A} (val : E) : Either E A := Left val.
Definition right {E A} (val : A) : Either E A := Right val.

Section EitherBase.
Context {W : Type}.

(** chapter_4.md:774-780 *)
Definition flatMap {G A B} (this : Either G A) (f : A -> Eff W (Either G B))
  : Eff W (Either G B) :=
  match this with
  | Left value => ret (left value)
  | Right value => f value
  end.

(** chapter_4.md:782-784 *)
Definition map {E A B} (this : Either E A) (f : A -> Eff W B)
  : Eff W (Either E B) :=
  flatMap this (fun a => b <- f a ;; ret (right b)).

(** chapter_4.md:786-792 *)
Definition orElse {G U} (this : Either G U) (b : unit -> Eff W (Either G U))
  : Eff W (Either G U) :=
  match this with
  | Left _ => b tt
  | Right _ => ret this
  end.

(** chapter_4.md:795-799 *)
Definition map2 {E A B C} (e1 : Either E A) (e2 : Either E B)
  (f : A -> B -> Eff W C) : Eff W (Either E C) :=
  flatMap e1 (fun a => map e2 (fun b => f a b)).

(** chapter_4.md:752-761; [e instanceof Error] narrows [e] to the [Error]
    it holds. *)
Definition Try {A} (f : unit -> Eff W A) : Eff W (Either Error A) :=
  try_catch (a <- f tt ;; ret (right a))
    (fun e =>
       match e with
       | Err err => ret (left err)
       | _ => (x <- new_Error e ;; ret (left x))
       end).

(** chapter_4.md:813-816; the argument [f(a)] is evaluated before [map2]
    is entered. *)
Definition traverse {E A B} (aa : list A) (f : A -> Eff W (Either E B))
  : Eff W (Either E (list B)) :=
  foldRight aa (right [])
    (fun a elb => eb <- f a ;; map2 eb elb (fun b lb => ret (b :: lb))).

(** chapter_4.md:810-811 *)
Definition sequence {E A} (le : list (Either E A))
  : Eff W (Either E (list A)) :=
  traverse le (fun ea => ret ea).

End EitherBase.

Section Mean.
Context {number : Type}.
Variable sum : list number -> number.
Variable divide : number -> nat -> number.

(** chapter_4.md:737-743; [len] is the length of the list, and
    [len === 0] is decided on it. *)
Definition mean (xs : list number) : Either string number :=
  let len := List.length xs in
  if Nat.eqb len 0 then left "mean of empty list"%string
  else right (divide (sum xs) len).

End Mean.

End EitherListing.

(** *** The [Person] listing *)
Module PersonListing.

Import EitherListing.

(** chapter_4.md:830-832 *)
Record Name : Type := new_Name { Name_name : string }.

Section Person.
Context {number : Type}.
(** [age < 0] on numbers is not among the sources; it is taken as it
    comes. *)
Variable lt_0 : number -> bool.

(** chapter_4.md:834-836 *)
Record Age : Type := new_Age { Age_age : number }.

(** chapter_4.md:826-828 *)
Record Person : Type := new_Person { Person_name : Name; Person_age : Age }.

(** chapter_4.md:838-843 *)
Definition mkName (name : string) : Either string Name :=
  if String.eqb name EmptyString then left "Name is empty."%string
  else right (new_Name name).

(** chapter_4.md:845-850 *)
Definition mkAge (age : number) : Either string Age :=
  if lt_0 age then left "Age is out of range."%string
  else right (new_Age age).

(** chapter_4.md:852-853 *)
Definition mkPerson {W} (name : string) (age : number)
  : Eff W (Either string Person) :=
  map2 (mkName name) (mkAge age) (fun n a => ret (new_Person n a)).

End Person.

End PersonListing.

End chapter_4.

(* ===================================================================== *)
(** ** src/fpbookclub/state/RNG.ts *)
(* ===================================================================== *)

Module RNG_ts.

(** [BigInt.asIntN(bits, x)]: [x] wrapped to a signed integer of [bits]
    bits. *)
Definition asIntN (bits : Z) (x : Z) : Z :=
  let m := x mod 2 ^ bits in
  if 2 ^ (bits - 1) <=? m then m - 2 ^ bits else m.

(** [Number(x)] of a bigint; exact while [x] has at most 53 bits, and
    [nextInt] gives it a 32-bit value. *)
Definition Number (x : Z) : Z := x.

(** RNG.ts:1-3 *)
Class RNG (T : Type) : Type := { nextInt : T -> Z * T }.

(** RNG.ts:5-6 *)
Record SimpleRNG : Type := mkSimpleRNG { seed : Z }.

(** RNG.ts:8-10, the constructor. *)
Definition new_SimpleRNG (seed : Z) : SimpleRNG :=
  mkSimpleRNG (asIntN 64 seed).

(** RNG.ts:13-18 *)
Definition SimpleRNG_nextInt (this : SimpleRNG) : Z * SimpleRNG :=
  let newSeed :=
    Z.land (asIntN 64 (seed this * 0x5deece66d + 0xb)) 0xffffffffffff in
  let nextRNG := new_SimpleRNG newSeed in
  let n := Number (asIntN 32 (Z.shiftr newSeed 16)) in
  (n, nextRNG).

#[export] Instance SimpleRNG_RNG : RNG SimpleRNG :=
  { nextInt := SimpleRNG_nextInt }.

End RNG_ts.

(* ===================================================================== *)
(** ** What the spec says of the list combinators *)
(* ===================================================================== *)

Module Spec.

Import option_ts(Option(..)).
Import chapter_4.EitherListing(Either(..)).

(** "Some of the transformed sequence in original order" when every
    element is present, "None" as soon as one is absent: the contract of
    [sequence] on the Options already computed. *)
Fixpoint all_present {B} (os : list (Option B)) : Option (list B) :=
  match os with
  | [] => Some []
  | o :: rest =>
      match o, all_present rest with
      | Some b, Some bs => Some (b :: bs)
      | _, _ => None
      end
  end.

(** "The first Left encountered (leftmost failing element, scanning in
    original order)", else the Right of all the values. *)
Fixpoint first_left {E B} (es : list (Either E B)) : Either E (list B) :=
  match es with
  | [] => Right []
  | Left e :: _ => Left e
  | Right b :: rest =>
      match first_left rest with
      | Left e => Left e
      | Right bs => Right (b :: bs)
      end
  end.

End Spec.

(* ===================================================================== *)
(** ** Properties *)
(* ===================================================================== *)

(** *** The monad *)

Lemma bind_ret_l {W A B} (a : A) (k : A -> Eff W B) (w : W) :
  bind (ret a) k w = k a w.
Proof. reflexivity. Qed.

Lemma bind_returned {W A B} (m : Eff W A) (k : A -> Eff W B) w a w' :
  m w = (Returned a, w') -> bind m k w = k a w'.
Proof. intros H. unfold bind. now rewrite H. Qed.

Lemma bind_thrown {W A B} (m : Eff W A) (k : A -> Eff W B) w v w' :
  m w = (Thrown v, w') -> bind m k w = (Thrown v, w').
Proof. intros H. unfold bind. now rewrite H. Qed.

Lemma returns_ret {W A} (a : A) (w : W) : returns (ret a) w.
Proof. now exists a, w. Qed.

Lemma returns_bind {W A B} (m : Eff W A) (k : A -> Eff W B) (w : W) :
  returns m w -> (forall a w', returns (k a) w') -> returns (bind m k) w.
Proof.
  intros (a & w' & Hm) Hk.
  destruct (Hk a w') as (b & w'' & Hb).
  exists b, w''. now rewrite (bind_returned _ _ _ _ _ Hm).
Qed.

Lemma thrown_not_returns {W A} (m : Eff W A) (w : W) v w' :
  m w = (Thrown v, w') -> ~ returns m w.
Proof. intros H (a & w'' & Ha). congruence. Qed.

Lemma total_pure {W A B} (f : A -> B) : total (W := W) (pure f).
Proof. intros a w. apply returns_ret. Qed.

(** A counted callback returns what the callback returns, and moves the
    counter by one. *)
Lemma counted_run {W A B} (f : A -> Eff W B) a n w :
  counted f a (n, w) = (fst (f a w), (S n, snd (f a w))).
Proof. unfold counted. cbn. now destruct (f a w). Qed.

(** *** option.ts as it is *)
Section OptionTsFacts.
Import option_ts.

(** The three bodies that are left to do throw on every receiver. *)
Lemma option_ts_flatMap_throws {W A B} (this : Option A)
  (f : A -> Eff W (Option B)) (w : W) :
  flatMap this f w = (Thrown (Err (mkError "Error" "Not implemented")), w).
Proof. reflexivity. Qed.

Lemma option_ts_filter_throws {W A} (this : Option A) (p : A -> Eff W bool)
  (w : W) :
  filter this p w = (Thrown (Err (mkError "Error" "Not implemented")), w).
Proof. reflexivity. Qed.

Lemma option_ts_orElse_throws {W U} (this : Option U)
  (ou : unit -> Eff W (Option U)) (w : W) :
  orElse this ou w = (Thrown (Err (mkError "Error" "Not implemented")), w).
Proof. reflexivity. Qed.

Lemma option_ts_flatMap_never_returns {W A B} (this : Option A)
  (f : A -> Eff W (Option B)) (w : W) :
  ~ returns (flatMap this f) w.
Proof. eapply thrown_not_returns, option_ts_flatMap_throws. Qed.

Lemma option_ts_filter_never_returns {W A} (this : Option A)
  (p : A -> Eff W bool) (w : W) :
  ~ returns (filter this p) w.
Proof. eapply thrown_not_returns, option_ts_filter_throws. Qed.

Lemma option_ts_orElse_never_returns {W U} (this : Option U)
  (ou : unit -> Eff W (Option U)) (w : W) :
  ~ returns (orElse this ou) w.
Proof. eapply thrown_not_returns, option_ts_orElse_throws. Qed.

(** The two bodies that are written return normally. *)
Lemma option_ts_map_total {W A B} (this : Option A) (f : A -> Eff W B) (w : W) :
  total f -> returns (map this f) w.
Proof.
  intros Hf. destruct this as [a|]; cbn.
  - apply returns_bind; [apply Hf | intros; apply returns_ret].
  - apply returns_ret.
Qed.

Lemma option_ts_getOrElse_total {W U} (this : Option U)
  (onEmpty : unit -> Eff W U) (w : W) :
  total onEmpty -> returns (getOrElse this onEmpty) w.
Proof.
  intros Hf. destruct this as [a|]; cbn; [apply returns_ret | apply Hf].
Qed.

(** With a callback that may change the world or throw, [map] on [Some]
    is the callback followed by the wrapping. *)
Lemma option_ts_map_Some_returned {W A B} (a : A) (f : A -> Eff W B) w b w' :
  f a w = (Returned b, w') -> map (Some a) f w = (Returned (Some b), w').
Proof. intros H. cbn. now rewrite (bind_returned _ _ _ _ _ H). Qed.

Lemma option_ts_map_Some_thrown {W A B} (a : A) (f : A -> Eff W B) w v w' :
  f a w = (Thrown v, w') -> map (Some a) f w = (Thrown v, w').
Proof. intros H. cbn. now rewrite (bind_thrown _ _ _ _ _ H). Qed.

End OptionTsFacts.

(** *** The Option listings of chapter 4 *)
Section OptionListingFacts.
Import option_ts(Option(..)).
Import chapter_4.OptionListing.

(** The listing's [map] and [getOrElse] are those of option.ts. *)
Lemma listing_map_eq {W A B} (this : Option A) (f : A -> Eff W B) :
  map this f = option_ts.map this f.
Proof. now destruct this. Qed.

Lemma listing_getOrElse_eq {W U} (this : Option U) (onEmpty : unit -> Eff W U) :
  getOrElse this onEmpty = option_ts.getOrElse this onEmpty.
Proof. now destruct this. Qed.

(** [flatMap] with any callback. *)
Lemma listing_flatMap_None {W A B} (f : A -> Eff W (Option B)) (w : W) :
  flatMap None f w = (Returned None, w).
Proof. reflexivity. Qed.

Lemma listing_flatMap_Some {W A B} (a : A) (f : A -> Eff W (Option B)) (w : W) :
  flatMap (Some a) f w = f a w.
Proof.
  unfold flatMap, map, bind, ret. cbn.
  destruct (f a w) as [[[b|]|v] w']; reflexivity.
Qed.

(** [orElse] with any thunk. *)
Lemma listing_orElse_Some {W U} (a : U) (ou : unit -> Eff W (Option U)) (w : W) :
  orElse (Some a) ou w = (Returned (Some a), w).
Proof. reflexivity. Qed.

Lemma listing_orElse_None {W U} (ou : unit -> Eff W (Option U)) (w : W) :
  orElse None ou w = ou tt w.
Proof. reflexivity. Qed.

(** [filter] with any predicate. *)
Lemma listing_filter_None {W A} (p : A -> Eff W bool) (w : W) :
  filter None p w = (Returned None, w).
Proof. reflexivity. Qed.

Lemma listing_filter_Some {W A} (a : A) (p : A -> Eff W bool) (w : W) :
  filter (Some a) p w
  = bind (p a) (fun c => ret (if c then Some a else None)) w.
Proof.
  unfold filter. rewrite listing_flatMap_Some.
  unfold bind. destruct (p a w) as [[[|]|v] w']; reflexivity.
Qed.

(** The five combinators of the listing return normally when their
    callbacks do. *)
Lemma listing_map_total {W A B} (this : Option A) (f : A -> Eff W B) (w : W) :
  total f -> returns (map this f) w.
Proof. rewrite listing_map_eq. apply option_ts_map_total. Qed.

Lemma listing_getOrElse_total {W U} (this : Option U)
  (onEmpty : unit -> Eff W U) (w : W) :
  total onEmpty -> returns (getOrElse this onEmpty) w.
Proof. rewrite listing_getOrElse_eq. apply option_ts_getOrElse_total. Qed.

Lemma listing_flatMap_total {W A B} (this : Option A)
  (f : A -> Eff W (Option B)) (w : W) :
  total f -> returns (flatMap this f) w.
Proof.
  intros Hf. destruct this as [a|].
  - destruct (Hf a w) as (b & w' & H).
    exists b, w'. now rewrite listing_flatMap_Some.
  - apply returns_ret.
Qed.

Lemma listing_filter_total {W A} (this : Option A) (p : A -> Eff W bool)
  (w : W) :
  total p -> returns (filter this p) w.
Proof.
  intros Hp. destruct this as [a|].
  - destruct (Hp a w) as (c & w' & H).
    exists (if c then Some a else None), w'.
    rewrite listing_filter_Some. now rewrite (bind_returned _ _ _ _ _ H).
  - apply returns_ret.
Qed.

Lemma listing_orElse_total {W U} (this : Option U)
  (ou : unit -> Eff W (Option U)) (w : W) :
  total ou -> returns (orElse this ou) w.
Proof.
  intros Hou. destruct this as [a|].
  - apply returns_ret.
  - destruct (Hou tt w) as (o & w' & H).
    exists o, w'. now rewrite listing_orElse_None.
Qed.

(** With the counter: [flatMap] on [None] and [orElse] on [Some] leave it
    alone; [flatMap] on [Some] and [orElse] on [None] move it by one. *)
Lemma listing_flatMap_counted {W A B} (a : A) (f : A -> Eff W (Option B))
  (n : nat) (w : W) :
  flatMap None (counted f) (n, w) = (Returned None, (n, w))
  /\ flatMap (Some a) (counted f) (n, w)
     = (fst (f a w), (S n, snd (f a w))).
Proof.
  split; [reflexivity|].
  rewrite listing_flatMap_Some. apply counted_run.
Qed.

Lemma listing_orElse_counted {W U} (a : U) (ou : unit -> Eff W (Option U))
  (n : nat) (w : W) :
  orElse (Some a) (counted ou) (n, w) = (Returned (Some a), (n, w))
  /\ orElse None (counted ou) (n, w)
     = (fst (ou tt w), (S n, snd (ou tt w))).
Proof.
  split; [reflexivity|].
  rewrite listing_orElse_None. apply counted_run.
Qed.

End OptionListingFacts.

(** *** The claims on the Option combinators *)
Section OptionClaims.
Import option_ts.

(** C1. The claim asks that [map], [flatMap], [filter], [getOrElse] and
    [orElse] return normally on every Option when their callbacks are
    total.  In option.ts, on the receiver [new Some(1)] with callbacks
    that only compute, [flatMap], [filter] and [orElse] throw
    [Error("Not implemented")], while [map] and [getOrElse] return. *)
Theorem C1_option_ts_unimplemented_throw :
  let thrown := (Thrown (Err (mkError "Error" "Not implemented")), tt) in
  flatMap (Some 1) (pure (fun a => Some (a + 1))) tt
    = thrown
  /\ filter (Some 1) (pure (fun a => 0 <? a)) tt = thrown
  /\ orElse (Some 1) (pure (fun _ => Some 2)) tt
    = thrown
  /\ total (W := unit) (pure (fun a => Some (a + 1)))
  /\ ~ returns
       (flatMap (Some 1)
          (pure (fun a => Some (a + 1)))) tt
  /\ map (Some 1) (pure (fun a => a + 1)) tt
    = (Returned (Some 2), tt)
  /\ getOrElse (Some 1) (pure (fun _ => 0)) tt
    = (Returned 1, tt).
Proof.
  cbv zeta. repeat split; try reflexivity.
  - apply total_pure.
  - apply option_ts_flatMap_never_returns.
Qed.

(** C2. The claim asks that [flatMap(Some(a), f)] be [f(a)] and that
    [flatMap(None, f)] be [None].  In option.ts, [flatMap] on
    [new Some(1)] and on [NONE] with [f = a => new Some(a + 1)] throws
    [Error("Not implemented")] where the claim gives [Some(2)] and
    [None]. *)
Theorem C2_option_ts_flatMap_throws :
  let f := pure (W := unit) (fun a => Some (a + 1)) in
  f 1 tt = (Returned (Some 2), tt)
  /\ flatMap (Some 1) f tt
     = (Thrown (Err (mkError "Error" "Not implemented")), tt)
  /\ flatMap NONE f tt
     = (Thrown (Err (mkError "Error" "Not implemented")), tt).
Proof. repeat split. Qed.

(** C3. [getOrElse] of option.ts on [Some(a)] returns [a] and leaves the
    world as it was, whatever the thunk would do; on [None] it is the
    thunk's own run.  With the side-effect counter of the tests: the
    counter stays where it was on [Some(a)], and on [None] it moves by
    exactly one while the result is the thunk's result. *)
Theorem C3_getOrElse_lazy :
  forall (W U : Type) (a : U) (thunk : unit -> Eff W U) (w : W) (n : nat),
    getOrElse (Some a) thunk w = (Returned a, w)
    /\ getOrElse None thunk w = thunk tt w
    /\ getOrElse (Some a) (counted thunk) (n, w)
       = (Returned a, (n, w))
    /\ getOrElse None (counted thunk) (n, w)
       = (fst (thunk tt w), (S n, snd (thunk tt w))).
Proof.
  intros. repeat split. cbn. apply counted_run.
Qed.

(** C4. [map] of option.ts: on [Some(a)] with a function [f] it returns
    [Some(f(a))]; on [None] it returns [None] for any callback, which is
    not run; and mapping the identity gives the Option back. *)
Theorem C4_map_Some_None_identity :
  forall (W A B : Type) (a : A) (f : A -> B) (g : A -> Eff W B)
         (opt : Option A) (w : W),
    map (Some a) (pure f) w
      = (Returned (Some (f a)), w)
    /\ map None g w = (Returned None, w)
    /\ map opt (pure (fun x => x)) w = (Returned opt, w).
Proof.
  intros. repeat split. now destruct opt.
Qed.

(** C5. The claim asks that [orElse(Some(a), thunk)] be [Some(a)] and that
    [orElse(None, thunk)] be the thunk's result.  In option.ts, [orElse]
    on [new Some(1)] and on [NONE] with [thunk = () => new Some(2)] throws
    [Error("Not implemented")] where the claim gives [Some(1)] and
    [Some(2)]. *)
Theorem C5_option_ts_orElse_throws :
  let thunk := pure (W := unit) (fun _ : unit => Some 2) in
  thunk tt tt = (Returned (Some 2), tt)
  /\ orElse (Some 1) thunk tt
     = (Thrown (Err (mkError "Error" "Not implemented")), tt)
  /\ orElse NONE thunk tt
     = (Thrown (Err (mkError "Error" "Not implemented")), tt).
Proof. repeat split. Qed.

End OptionClaims.

(** *** The list combinators of chapter 4 on Option *)
Section OptionTraverseFacts.
Import option_ts(Option(..)).
Import chapter_4 chapter_4.OptionListing.

Lemma all_present_None {B} (os : list (Option B)) :
  Spec.all_present os = None <-> In None os.
Proof.
  induction os as [|[b|] rest IH]; cbn.
  - split; [discriminate | contradiction].
  - destruct (Spec.all_present rest) as [bs|].
    + split; [discriminate|].
      intros [H|H]; [discriminate | now apply IH in H].
    + split; [|reflexivity]. intros _. right. now apply IH.
  - split; [now left | reflexivity].
Qed.

Lemma all_present_Some {B} (os : list (Option B)) (bs : list B) :
  Spec.all_present os = Some bs <-> os = List.map Some bs.
Proof.
  revert bs. induction os as [|[b|] rest IH]; intros bs; cbn.
  - split.
    + intros H. now injection H as <-.
    + destruct bs; [reflexivity | discriminate].
  - destruct (Spec.all_present rest) as [bs'|] eqn:Hrest.
    + split.
      * intros H. injection H as <-. cbn. f_equal. now apply IH.
      * destruct bs as [|b0 bs0]; [discriminate|]. cbn.
        intros H. injection H as -> Hr.
        apply IH in Hr. now injection Hr as ->.
    + split; [discriminate|].
      destruct bs as [|b0 bs0]; [discriminate|]. cbn.
      intros H. injection H as _ Hr. apply IH in Hr. discriminate.
  - split; [discriminate|].
    destruct bs; discriminate.
Qed.

(** [map2] of the listing on two Options, with a function that only
    computes. *)
Lemma listing_map2_pure {W A B C} (oa : Option A) (ob : Option B)
  (f : A -> B -> C) (w : W) :
  map2 oa ob (fun a b => ret (f a b)) w
  = (Returned (match oa, ob with
               | Some a, Some b => Some (f a b)
               | _, _ => None
               end), w).
Proof. destruct oa, ob; reflexivity. Qed.

(** The fold inside [traverse], on any list, the empty one included. *)
Lemma traverse_fold_pure {W A B} (ls : list A) (f : A -> Option B) (w : W) :
  foldRight ls (some [])
    (fun a ol => ob <- pure f a ;; map2 ol ob (fun la b => ret (b :: la))) w
  = (Returned (Spec.all_present (List.map f ls)), w).
Proof.
  induction ls as [|h t IH]; [reflexivity|].
  cbn [foldRight List.map]. rewrite (bind_returned _ _ _ _ _ IH).
  unfold pure. rewrite bind_ret_l, listing_map2_pure. cbn.
  destruct (f h), (Spec.all_present (List.map f t)); reflexivity.
Qed.

Lemma traverse_cons_pure {W A B} (x : A) (xs : list A) (f : A -> Option B)
  (w : W) :
  traverse (x :: xs) (pure f) w
  = (Returned (Spec.all_present (List.map f (x :: xs))), w).
Proof. unfold traverse. apply traverse_fold_pure. Qed.

(** The two listings of [sequence] agree, and [traverse] is [sequence]
    after the mapping. *)
Lemma sequence_fold_pure {W A} (ls : list (Option A)) (w : W) :
  foldRight ls (some [])
    (fun oa ol => map2 ol oa (fun la a => ret (a :: la))) w
  = (Returned (Spec.all_present ls), w).
Proof.
  induction ls as [|h t IH]; [reflexivity|].
  cbn [foldRight]. rewrite (bind_returned _ _ _ _ _ IH).
  rewrite listing_map2_pure. cbn.
  destruct h, (Spec.all_present t); reflexivity.
Qed.

Lemma sequence_cons {W A} (o : Option A) (os : list (Option A)) (w : W) :
  sequence (o :: os) w = (Returned (Spec.all_present (o :: os)), w).
Proof. unfold sequence. apply sequence_fold_pure. Qed.

Lemma sequence_by_traverse {W A} (ls : list (Option A)) (w : W) :
  Exercise_4_5.sequence ls w = sequence ls w.
Proof.
  destruct ls; reflexivity.
Qed.

End OptionTraverseFacts.

(** C7 as stated fails on the empty list: [traverse] returns [None] there,
    and no element has an absent image. *)
Lemma C7_counterexample_empty_list :
  chapter_4.OptionListing.traverse (W := unit) []
    (pure (fun z : Z => option_ts.Some z)) tt
  = (Returned option_ts.None, tt)
  /\ ~ (exists x : Z, In x [] /\ option_ts.Some x = @option_ts.None Z).
Proof.
  split; [reflexivity|]. intros (x & [] & _).
Qed.

(** C7, amended.  On a list with at least one element and a function [f]
    to Options, [traverse] returns normally; its result is [None] exactly
    when some element has [f x = None], and it is [Some ys] exactly when
    the images of the elements, in their order, are the [Some]s of [ys].
    On the empty list [traverse] returns [None]. *)
Theorem C7_traverse_nonempty :
  forall (W A B : Type) (x : A) (xs : list A) (f : A -> option_ts.Option B)
         (w : W),
  chapter_4.OptionListing.traverse [] (pure f) w = (Returned option_ts.None, w)
  /\ exists r : option_ts.Option (list B),
    chapter_4.OptionListing.traverse (x :: xs) (pure f) w = (Returned r, w)
    /\ (r = option_ts.None
        <-> exists y, In y (x :: xs) /\ f y = option_ts.None)
    /\ (forall ys, r = option_ts.Some ys
        <-> List.map f (x :: xs) = List.map option_ts.Some ys).
Proof.
  intros. split; [reflexivity|].
  eexists. split; [apply traverse_cons_pure|]. split.
  - rewrite all_present_None, in_map_iff.
    split; intros (y & H1 & H2); exists y; auto.
  - intros ys. apply all_present_Some.
Qed.

(** *** The Either listings of chapter 4 *)
Section EitherListingFacts.
Import chapter_4 chapter_4.EitherListing.

(** [flatMap] and [map] pass a [Left] on without running the callback. *)
Lemma either_flatMap_Left {W G A B} (e : G) (f : A -> Eff W (Either G B))
  (w : W) :
  flatMap (Left e) f w = (Returned (Left e), w).
Proof. reflexivity. Qed.

Lemma either_flatMap_Right {W G A B} (a : A) (f : A -> Eff W (Either G B))
  (w : W) :
  flatMap (Right a) f w = f a w.
Proof. reflexivity. Qed.

Lemma either_map_Left {W E A B} (e : E) (f : A -> Eff W B) (w : W) :
  map (Left e) f w = (Returned (Left e), w).
Proof. reflexivity. Qed.

(** [map2] with a callback that may change the world or throw: the
    callback runs only when both operands are [Right]. *)
Lemma either_map2_Right_Right {W E A B C} (a : A) (b : B)
  (f : A -> B -> Eff W C) (w : W) :
  map2 (E := E) (Right a) (Right b) f w
  = bind (f a b) (fun c => ret (Right c)) w.
Proof. reflexivity. Qed.

Lemma either_map2_pure {W E A B C} (ea : Either E A) (eb : Either E B)
  (f : A -> B -> C) (w : W) :
  map2 ea eb (fun a b => ret (f a b)) w
  = (Returned (match ea, eb with
               | Left e, _ => Left e
               | Right _, Left e => Left e
               | Right a, Right b => Right (f a b)
               end), w).
Proof. destruct ea, eb; reflexivity. Qed.

(** The fold of [traverse] gives the leftmost [Left] of the images, or
    the [Right] of all of them in their order. *)
Lemma either_traverse_pure {W E A B} (aa : list A) (f : A -> Either E B)
  (w : W) :
  traverse aa (pure f) w = (Returned (Spec.first_left (List.map f aa)), w).
Proof.
  unfold traverse.
  induction aa as [|h t IH]; [reflexivity|].
  cbn [foldRight List.map]. rewrite (bind_returned _ _ _ _ _ IH).
  unfold pure. rewrite bind_ret_l, either_map2_pure. cbn.
  destruct (f h), (Spec.first_left (List.map f t)); reflexivity.
Qed.

Lemma either_sequence_eq {W E A} (le : list (Either E A)) (w : W) :
  sequence le w = (Returned (Spec.first_left le), w).
Proof.
  unfold sequence.
  change (fun ea : Either E A => ret ea)
    with (pure (W := W) (fun ea : Either E A => ea)).
  rewrite either_traverse_pure. now rewrite List.map_id.
Qed.

End EitherListingFacts.

Section EitherClaims.
Import option_ts(Option(..)).
Import chapter_4 chapter_4.EitherListing(Either(..)).

(** C6. [map2] on two Eithers and a function [f]: two [Right]s give the
    [Right] of [f] on their values; a [Left] on the left is returned
    whatever the right operand and the callback are; with a [Right] on the
    left, a [Left] on the right is returned; so two [Left]s give the left
    one. *)
Theorem C6_either_map2 :
  forall (W E A B C : Type) (a : A) (b : B) (e1 e2 : E)
         (ea : Either E A) (eb : Either E B)
         (f : A -> B -> C) (g : A -> B -> Eff W C) (w : W),
    EitherListing.map2 (E := E) (Right a) (Right b) (fun x y => ret (f x y)) w
    = (Returned (Right (f a b)), w)
    /\ EitherListing.map2 (Left e1) eb g w = (Returned (Left e1), w)
    /\ EitherListing.map2 (Right a) (Left e2) g w = (Returned (Left e2), w)
    /\ EitherListing.map2 (A := A) (B := B) (Left e1) (Left e2) g w
       = (Returned (Left e1), w)
    /\ EitherListing.map2 ea eb (fun x y => ret (f x y)) w
       = (Returned
            match ea, eb with
            | Left e, _ => Left e
            | Right _, Left e => Left e
            | Right x, Right y => Right (f x y)
            end, w).
Proof.
  intros. repeat split. apply either_map2_pure.
Qed.

(** C8 as stated fails for Either: on the empty list [traverse] and
    [sequence] return the [Right] of the empty list, which is no [Left]. *)
Lemma C8_counterexample_either_empty :
  EitherListing.traverse (W := unit) (E := string) []
    (pure (fun z : Z => Right z)) tt
  = (Returned (Right []), tt)
  /\ EitherListing.sequence (W := unit) (E := string) (A := Z) [] tt
     = (Returned (Right []), tt)
  /\ (forall e : string,
        EitherListing.traverse (W := unit) [] (pure (fun z : Z => Right z)) tt
        <> (Returned (Left e), tt)).
Proof.
  repeat split. intros e H. discriminate H.
Qed.

(** C8, amended.  On the empty list the Option [sequence] (both listings)
    and [traverse] return [None], and the callback is not run; the Either
    [traverse] and [sequence] return the [Right] of the empty list, and
    the callback is not run. *)
Theorem C8_empty_input :
  forall (W A B E : Type) (f : A -> Eff W (Option B))
         (g : A -> Eff W (Either E B)) (w : W),
    OptionListing.sequence (A := A) [] w = (Returned None, w)
    /\ OptionListing.Exercise_4_5.sequence (A := A) [] w = (Returned None, w)
    /\ OptionListing.traverse [] f w = (Returned None, w)
    /\ EitherListing.traverse [] g w = (Returned (Right []), w)
    /\ EitherListing.sequence (E := E) (A := A) [] w
       = (Returned (Right []), w).
Proof.
  intros. repeat split.
Qed.

End EitherClaims.

Section TryClaims.
Import option_ts(Option(..)).
Import chapter_4 chapter_4.EitherListing(Either(..)).

(** Neither [Try] throws, whatever the thunk does. *)
Lemma option_Try_returns {W A} (f : unit -> Eff W A) (w : W) :
  returns (OptionListing.Try f) w.
Proof.
  unfold returns, OptionListing.Try, try_catch, bind, ret.
  destruct (f tt w) as [[a|v] w']; eauto.
Qed.

(** The Either [Try] on each way its thunk can end.  A thrown [Error] is
    the payload itself; any other thrown value goes through [new Error],
    whose own fault, if it has one, leaves [Try]. *)
Lemma either_Try_outcomes {W A} (f : unit -> Eff W A) (w w' : W) :
  (forall a, f tt w = (Returned a, w') ->
     OptionListing.Try f w = (Returned (Some a), w')
     /\ EitherListing.Try f w = (Returned (Right a), w'))
  /\ (forall v, f tt w = (Thrown v, w') ->
     OptionListing.Try f w = (Returned None, w')
     /\ (forall e, v = Err e ->
           EitherListing.Try f w = (Returned (Left e), w'))
     /\ (v = Undefined ->
           EitherListing.Try f w
           = (Returned (Left (mkError "Error" EmptyString)), w'))
     /\ (forall s, instanceof_Error v = false -> v <> Undefined ->
           ToString v = Returned s ->
           EitherListing.Try f w = (Returned (Left (mkError "Error" s)), w'))
     /\ (forall t, instanceof_Error v = false -> ToString v = Thrown t ->
           EitherListing.Try f w = (Thrown t, w'))).
Proof.
  split.
  - intros a Hf.
    unfold OptionListing.Try, EitherListing.Try, try_catch, bind, ret.
    now rewrite Hf.
  - intros v Hf.
    assert (HE : EitherListing.Try f w
                 = match v with
                   | Err e => (Returned (Left e), w')
                   | _ => (x <- new_Error v ;; ret (Left x)) w'
                   end).
    { unfold EitherListing.Try, try_catch, bind at 1. rewrite Hf.
      now destruct v. }
    split; [|split; [|split; [|split]]].
    + unfold OptionListing.Try, try_catch, bind. now rewrite Hf.
    + intros e ->. exact HE.
    + intros ->. exact HE.
    + intros s Hi Hu Hs. rewrite HE.
      destruct v; try discriminate Hi; try (now contradiction Hu);
        unfold new_Error, bind, ret; rewrite Hs; reflexivity.
    + intros t Hi Ht. rewrite HE.
      destruct v; try discriminate Hi; try discriminate Ht;
        unfold new_Error, bind, throw; rewrite Ht; reflexivity.
Qed.

(** C9. The claim asks that [Try] on a thunk that throws return a [Left]
    whose payload keeps what the fault said, non-[Error] values wrapped
    rather than dropped.  On the thunk [() => { throw Symbol("boom") }]
    the Either [Try] returns no [Left]: [new Error(e)] in its catch block
    throws a [TypeError], which leaves [Try]; the Option [Try] returns
    [None] there.  On a thrown plain object the payload's message is
    ["[object Object]"], the same for [{code: "E1"}] and [{code: "E2"}]. *)
Theorem C9_Try_thrown_Symbol :
  let f := fun _ : unit => throw (W := unit) (A := Z) (Sym "boom") in
  let o1 := fun _ : unit =>
              throw (W := unit) (A := Z) (Obj [("code"%string, Str "E1")]) in
  let o2 := fun _ : unit =>
              throw (W := unit) (A := Z) (Obj [("code"%string, Str "E2")]) in
  f tt tt = (Thrown (Sym "boom"), tt)
  /\ EitherListing.Try f tt
     = (Thrown (Err (mkError "TypeError"
                       "Cannot convert a Symbol value to a string")), tt)
  /\ ~ returns (EitherListing.Try f) tt
  /\ OptionListing.Try f tt = (Returned None, tt)
  /\ EitherListing.Try o1 tt
     = (Returned (Left (mkError "Error" "[object Object]")), tt)
  /\ EitherListing.Try o2 tt = EitherListing.Try o1 tt.
Proof.
  cbv zeta. repeat split.
  eapply thrown_not_returns. reflexivity.
Qed.

End TryClaims.

(** *** RNG.ts *)
Section RNGFacts.
Import RNG_ts.

Lemma asIntN_range (bits x : Z) :
  0 < bits -> - 2 ^ (bits - 1) <= asIntN bits x < 2 ^ (bits - 1).
Proof.
  intros Hb. unfold asIntN. cbv zeta.
  assert (H2 : 2 ^ bits = 2 * 2 ^ (bits - 1)).
  { rewrite <- Z.pow_succ_r by lia. f_equal. lia. }
  assert (Hp : 0 < 2 ^ (bits - 1)) by (apply Z.pow_pos_nonneg; lia).
  pose proof (Z.mod_pos_bound x (2 ^ bits) ltac:(lia)) as Hm.
  destruct (Z.leb_spec (2 ^ (bits - 1)) (x mod 2 ^ bits)); lia.
Qed.

Lemma asIntN_small (bits x : Z) :
  0 < bits -> 0 <= x < 2 ^ (bits - 1) -> asIntN bits x = x.
Proof.
  intros Hb Hx. unfold asIntN. cbv zeta.
  assert (H2 : 2 ^ bits = 2 * 2 ^ (bits - 1)).
  { rewrite <- Z.pow_succ_r by lia. f_equal. lia. }
  rewrite Z.mod_small by lia.
  destruct (Z.leb_spec (2 ^ (bits - 1)) x); lia.
Qed.

(** The mask keeps the low 48 bits. *)
Lemma mask48 (x : Z) : Z.land x 0xffffffffffff = x mod 2 ^ 48.
Proof. change 0xffffffffffff with (Z.ones 48). now apply Z.land_ones. Qed.

Lemma nextInt_unfold (r : SimpleRNG) :
  nextInt r
  = (Number (asIntN 32 (Z.shiftr
               (Z.land (asIntN 64 (seed r * 0x5deece66d + 0xb))
                  0xffffffffffff) 16)),
     new_SimpleRNG
       (Z.land (asIntN 64 (seed r * 0x5deece66d + 0xb)) 0xffffffffffff)).
Proof. reflexivity. Qed.

Lemma nextInt_seed (r : SimpleRNG) :
  seed (snd (nextInt r)) = asIntN 64 (seed r * 0x5deece66d + 0xb) mod 2 ^ 48.
Proof.
  rewrite nextInt_unfold. unfold new_SimpleRNG. cbn [snd seed].
  rewrite mask48. apply asIntN_small; [lia|].
  assert (H48 : 0 < 2 ^ 48) by reflexivity.
  pose proof (Z.mod_pos_bound (asIntN 64 (seed r * 0x5deece66d + 0xb))
                (2 ^ 48) H48).
  change (2 ^ (64 - 1)) with (2 ^ 48 * 32768). lia.
Qed.

Lemma nextInt_value (r : SimpleRNG) :
  fst (nextInt r) = asIntN 32 (seed (snd (nextInt r)) / 2 ^ 16).
Proof.
  rewrite nextInt_seed, nextInt_unfold. cbn [fst]. unfold Number.
  rewrite mask48. now rewrite Z.shiftr_div_pow2 by lia.
Qed.

(** The first draw from seed 42. *)
Example nextInt_42 :
  nextInt (new_SimpleRNG 42) = (16159453, mkSimpleRNG 1059025964525).
Proof. reflexivity. Qed.

(** A seed whose product leaves the 64-bit range and is wrapped before the
    mask; the number drawn is negative. *)
Example nextInt_wraps :
  2 ^ 63 <= 0x7fffffffffffffff * 0x5deece66d + 0xb
  /\ asIntN 64 (0x7fffffffffffffff * 0x5deece66d + 0xb) = 9223372011639871902
  /\ nextInt (new_SimpleRNG 0x7fffffffffffffff)
     = (-384749, mkSimpleRNG 281449761806750).
Proof. repeat split. discriminate. Qed.

(** C10. [nextInt] is a function of the seed: two generators with equal
    seeds give equal numbers and equal successors.  The successor's seed
    lies in [0, 2^48), and the number lies in [-2^31, 2^31 - 1]. *)
Theorem C10_nextInt_deterministic_bounded :
  forall r1 r2 : SimpleRNG,
    (seed r1 = seed r2 -> nextInt r1 = nextInt r2)
    /\ 0 <= seed (snd (nextInt r1)) < 2 ^ 48
    /\ - 2 ^ 31 <= fst (nextInt r1) <= 2 ^ 31 - 1.
Proof.
  intros [s1] [s2]. split; [|split].
  - cbn. now intros ->.
  - rewrite nextInt_seed. apply Z.mod_pos_bound. reflexivity.
  - rewrite nextInt_value.
    pose proof (asIntN_range 32
                  (seed (snd (nextInt (mkSimpleRNG s1)))
                   / 2 ^ 16) ltac:(lia)) as H.
    change (2 ^ (32 - 1)) with (2 ^ 31) in H. lia.
Qed.

Lemma C10_nextInt_witness :
  nextInt (new_SimpleRNG 42)
  = nextInt (mkSimpleRNG 42).
Proof.
  apply (proj1 (C10_nextInt_deterministic_bounded
                  (new_SimpleRNG 42) (mkSimpleRNG 42))).
  reflexivity.
Defined.

End RNGFacts.

(* ===================================================================== *)
(** ** Further properties of the Option code *)
(* ===================================================================== *)

Section OptionLaws.
Import option_ts(Option(..)).
Import chapter_4 chapter_4.OptionListing.

(** X1. Mapping twice with [map] of option.ts runs the two callbacks one
    after the other on the value, as mapping once with their composition
    does: same result, same world, same fault if one of them throws. *)
Theorem option_ts_map_composition :
  forall (W A B C : Type) (opt : Option A) (f : A -> Eff W B)
         (g : B -> Eff W C) (w : W),
    (o <- option_ts.map opt f ;; option_ts.map o g) w
    = option_ts.map opt (fun x => y <- f x ;; g y) w.
Proof.
  intros. destruct opt as [a|]; [|reflexivity].
  unfold option_ts.map, bind, ret.
  destruct (f a w) as [[b|v] w1]; [|reflexivity].
  destruct (g b w1) as [[c|v] w2]; reflexivity.
Qed.

(** X2. The [map] and [getOrElse] that option.ts has are those of the
    answer listing of chapter 4, which tests the tag the other way round:
    on every receiver and callback they run alike. *)
Theorem option_ts_agrees_with_listing :
  forall (W A B : Type) (this : Option A) (f : A -> Eff W B)
         (onEmpty : unit -> Eff W A) (w : W),
    option_ts.map this f w = map this f w
    /\ option_ts.getOrElse this onEmpty w = getOrElse this onEmpty w.
Proof.
  intros. now destruct this.
Qed.

(** X3. [lift] keeps identity and composition: lifting the identity gives
    the identity on Options, and lifting a composition is lifting each
    function in turn. *)
Theorem lift_functor :
  forall (W A B C : Type) (o : Option A) (f : A -> Eff W B)
         (g : B -> Eff W C) (w : W),
    lift (pure (fun x => x)) o w = (Returned o, w)
    /\ lift (fun x => y <- f x ;; g y) o w
       = (o' <- lift f o ;; lift g o') w.
Proof.
  intros. split; [now destruct o|].
  destruct o as [a|]; [|reflexivity].
  unfold lift, map, bind, ret.
  destruct (f a w) as [[b|v] w1]; [|reflexivity].
  cbn. destruct (g b w1) as [[c|v] w2]; reflexivity.
Qed.

(** X4. [flatMap] of the listing obeys the monad laws with [some]:
    wrapping back with [some] changes nothing, and two chained [flatMap]s
    are one [flatMap] with the chained callback. *)
Theorem listing_flatMap_monad_laws :
  forall (W A B C : Type) (o : Option A) (f : A -> Eff W (Option B))
         (g : B -> Eff W (Option C)) (w : W),
    flatMap o (pure some) w = (Returned o, w)
    /\ (o' <- flatMap o f ;; flatMap o' g) w
       = flatMap o (fun a => o' <- f a ;; flatMap o' g) w.
Proof.
  intros. split; [now destruct o|].
  destruct o as [a|]; [|reflexivity].
  rewrite listing_flatMap_Some.
  unfold bind at 1. rewrite listing_flatMap_Some. reflexivity.
Qed.

(** X5. [filter] of the listing with a predicate that only computes:
    the result is [Some a] exactly when the receiver is [Some a] and the
    predicate holds of [a]; filtering the result again changes nothing.
    On [None] no predicate is run. *)
Theorem listing_filter_spec :
  forall (W A : Type) (o : Option A) (p : A -> bool)
         (q : A -> Eff W bool) (w : W),
  exists r : Option A,
    filter o (pure p) w = (Returned r, w)
    /\ (forall a, r = Some a <-> o = Some a /\ p a = true)
    /\ filter r (pure p) w = (Returned r, w)
    /\ filter None q w = (Returned None, w).
Proof.
  intros. destruct o as [a|].
  - exists (if p a then Some a else None).
    rewrite listing_filter_Some. unfold pure. rewrite bind_ret_l.
    split; [reflexivity|]. destruct (p a) eqn:Hp.
    + split; [|split; [|reflexivity]].
      * intros a0. split.
        -- intros H. injection H as <-. now split.
        -- now intros [H _].
      * rewrite listing_filter_Some. unfold pure, bind, ret. now rewrite Hp.
    + split; [|split; reflexivity].
      intros a0. split; [discriminate|].
      intros [H H']. injection H as ->. congruence.
  - exists None. repeat split; try discriminate.
    now intros [H _].
Qed.

(** X6. [map2] on Options: an absent operand on either side gives [None]
    and the callback is not run (the counter stays); two present operands
    run the callback once and wrap its result. *)
Theorem listing_map2_spec :
  forall (W A B C : Type) (a : A) (b : B) (oa : Option A) (ob : Option B)
         (g : A -> B -> Eff W C) (n : nat) (w : W),
    map2 None ob g w = (Returned None, w)
    /\ map2 oa None g w = (Returned None, w)
    /\ map2 None ob (fun x => counted (g x)) (n, w) = (Returned None, (n, w))
    /\ map2 oa None (fun x => counted (g x)) (n, w) = (Returned None, (n, w))
    /\ map2 (Some a) (Some b) g w = (c <- g a b ;; ret (Some c)) w
    /\ map2 (Some a) (Some b) (fun x => counted (g x)) (n, w)
       = (match fst (g a b w) with
          | Returned c => Returned (Some c)
          | Thrown v => Thrown v
          end, (S n, snd (g a b w))).
Proof.
  intros. repeat split; try (now destruct oa).
  - unfold map2. rewrite listing_flatMap_Some.
    unfold map, bind, ret, some. now destruct (g a b w) as [[c|v] w1].
  - unfold map2. rewrite listing_flatMap_Some.
    unfold map, bind. rewrite counted_run.
    now destruct (g a b w) as [[c|v] w1].
Qed.

End OptionLaws.

Section OptionListLaws.
Import option_ts(Option(..)).
Import chapter_4 chapter_4.OptionListing.

(** X7. [sequence] of the listing: on the empty list it returns [None];
    on a list with at least one element it returns [None] exactly when an
    element is [None], and [Some ys] exactly when the elements are the
    [Some]s of [ys], in their order. *)
Theorem listing_sequence_spec :
  forall (W A : Type) (o : Option A) (os : list (Option A)) (w : W),
    sequence (A := A) [] w = (Returned None, w)
    /\ exists r : Option (list A),
         sequence (o :: os) w = (Returned r, w)
         /\ (r = None <-> In None (o :: os))
         /\ (forall ys, r = Some ys <-> o :: os = List.map Some ys).
Proof.
  intros. split; [reflexivity|].
  eexists. split; [apply sequence_cons|]. split.
  - apply all_present_None.
  - intros ys. apply all_present_Some.
Qed.

(** X8. [traverse] is [sequence] after the mapping, on every list, the
    empty one included; the [sequence] written with [traverse] is the
    [sequence] written with the fold; and [parseInts] is [traverse] with
    [parseIntOpt]. *)
Theorem traverse_sequence_fusion :
  forall (W A B number : Type) (f : A -> Option B) (ls : list A)
         (los : list (Option A)) (parseInt : string -> number)
         (isNaN : number -> bool) (a : list string) (w : W),
    traverse ls (pure f) w = sequence (List.map f ls) w
    /\ Exercise_4_5.sequence los w = sequence los w
    /\ parseInts parseInt isNaN a w
       = traverse a (pure (parseIntOpt parseInt isNaN)) w.
Proof.
  assert (fusion : forall (W A B : Type) (f : A -> Option B) ls (w : W),
             traverse ls (pure f) w = sequence (List.map f ls) w).
  { intros W A B f [|x xs] w; [reflexivity|].
    rewrite traverse_cons_pure. cbn [List.map]. now rewrite sequence_cons. }
  intros. split; [apply fusion|]. split.
  - apply sequence_by_traverse.
  - unfold parseInts. now rewrite fusion.
Qed.

Lemma parseIntOpt_images {number} (parseInt : string -> number)
  (isNaN : number -> bool) (a : list string) (ns : list number) :
  List.map (parseIntOpt parseInt isNaN) a = List.map Some ns
  <-> Forall (fun s => isNaN (parseInt s) = false) a
      /\ ns = List.map parseInt a.
Proof.
  revert ns. induction a as [|s a IH]; intros ns.
  - cbn. split.
    + intros H. destruct ns; [now split | discriminate].
    + now intros [_ ->].
  - cbn [List.map]. unfold parseIntOpt at 1. cbv zeta.
    destruct (isNaN (parseInt s)) eqn:Hs.
    + split.
      * destruct ns; discriminate.
      * intros [H _]. inversion H; congruence.
    + split.
      * destruct ns as [|n ns]; [discriminate|]. cbn.
        intros H. injection H as <- H. apply IH in H as [H ->].
        split; [now constructor | reflexivity].
      * intros [H ->]. inversion H; subst. cbn. unfold some. f_equal.
        apply IH. now split.
Qed.

(** X9. [parseInts] returns [Some ns] exactly when the list of strings is
    not empty, none of them parses to [NaN], and [ns] are the parsed
    numbers in the order of the strings. *)
Theorem parseInts_spec :
  forall (W number : Type) (parseInt : string -> number)
         (isNaN : number -> bool) (a : list string) (w : W),
  exists r : Option (list number),
    parseInts parseInt isNaN a w = (Returned r, w)
    /\ (forall ns, r = Some ns
        <-> a <> []
            /\ Forall (fun s => isNaN (parseInt s) = false) a
            /\ ns = List.map parseInt a).
Proof.
  intros. destruct a as [|s a].
  - exists None. split; [reflexivity|].
    intros ns. split; [discriminate | now intros [H _]].
  - eexists. split.
    + unfold parseInts. cbn [List.map]. apply sequence_cons.
    + intros ns.
      rewrite all_present_Some.
      change (parseIntOpt parseInt isNaN s
              :: List.map (parseIntOpt parseInt isNaN) a)
        with (List.map (parseIntOpt parseInt isNaN) (s :: a)).
      rewrite parseIntOpt_images.
      split; [intros [H1 H2]; repeat split; auto; discriminate
             | intros (_ & H1 & H2); now split].
Qed.

(** A logged callback that only computes returns its image and writes its
    argument at the end of the log. *)
Lemma logged_pure_run {W A B} (f : A -> B) (a : A) (log : list A) (w : W) :
  logged (pure f) a (log, w) = (Returned (f a), (log ++ [a], w)).
Proof. reflexivity. Qed.

(** The fold of [traverse] with a logged callback, on any list. *)
Lemma traverse_fold_logged {W A B} (f : A -> Option B) (ls log : list A)
  (w : W) :
  foldRight ls (some [])
    (fun a ol =>
       ob <- logged (pure f) a ;; map2 ol ob (fun la b => ret (b :: la)))
    (log, w)
  = (Returned (Spec.all_present (List.map f ls)), (log ++ rev ls, w)).
Proof.
  induction ls as [|h t IH].
  - cbn. now rewrite app_nil_r.
  - cbn [foldRight List.map rev]. rewrite (bind_returned _ _ _ _ _ IH).
    unfold bind at 1. rewrite logged_pure_run, listing_map2_pure.
    rewrite app_assoc. cbn.
    destruct (f h), (Spec.all_present (List.map f t)); reflexivity.
Qed.

(** X10. [traverse] on Options does not stop at the first absent image.
    With a callback that only computes, on a list with at least one
    element, the calls made are exactly one per element, from the last
    element to the first, whatever the images are; the result is that of
    the unlogged callback: [Some] of all the images in the order of the
    list, or [None] when one is absent. *)
Theorem listing_traverse_calls_every_element :
  forall (W A B : Type) (f : A -> Option B) (x : A) (xs log : list A)
         (w : W),
    traverse (x :: xs) (logged (pure f)) (log, w)
    = (Returned (Spec.all_present (List.map f (x :: xs))),
       (log ++ rev (x :: xs), w))
    /\ fst (traverse (x :: xs) (logged (pure f)) (log, w))
       = fst (traverse (x :: xs) (pure f) w).
Proof.
  intros.
  assert (H : traverse (x :: xs) (logged (pure f)) (log, w)
              = (Returned (Spec.all_present (List.map f (x :: xs))),
                 (log ++ rev (x :: xs), w)))
    by apply traverse_fold_logged.
  split; [exact H|].
  now rewrite H, traverse_cons_pure.
Qed.

End OptionListLaws.

(* ===================================================================== *)
(** ** Further properties of the Either code *)
(* ===================================================================== *)

Section EitherLaws.
Import chapter_4 chapter_4.EitherListing.

(** X11. [orElse] on Eithers: a [Right] is returned as it is and the
    alternative is not run (the counter stays); on a [Left] the result is
    the alternative's own run, which is called once, and the [Left]'s
    value is dropped. *)
Theorem either_orElse_spec :
  forall (W G U : Type) (a : U) (e : G) (b : unit -> Eff W (Either G U))
         (n : nat) (w : W),
    orElse (Right a) b w = (Returned (Right a), w)
    /\ orElse (Right a) (counted b) (n, w) = (Returned (Right a), (n, w))
    /\ orElse (Left e) b w = b tt w
    /\ orElse (Left e) (counted b) (n, w)
       = (fst (b tt w), (S n, snd (b tt w))).
Proof.
  intros. repeat split. cbn. apply counted_run.
Qed.

(** X12. [map] on Eithers is a functor on the right side: a [Left] goes
    through untouched and the callback is not run; the identity maps an
    Either to itself; and mapping twice is mapping once with the
    composition, with the same effects. *)
Theorem either_map_functor :
  forall (W E A B C : Type) (e : E) (this : Either E A) (f : A -> Eff W B)
         (g : B -> Eff W C) (n : nat) (w : W),
    map (Left e) f w = (Returned (Left e), w)
    /\ map (Left e) (counted f) (n, w) = (Returned (Left e), (n, w))
    /\ map this (pure (fun x => x)) w = (Returned this, w)
    /\ (e' <- map this f ;; map e' g) w
       = map this (fun x => y <- f x ;; g y) w.
Proof.
  intros. repeat split; try (now destruct this).
  destruct this as [e0|a]; [reflexivity|].
  unfold map, flatMap, bind, ret, right.
  destruct (f a w) as [[b|v] w1]; [|reflexivity].
  destruct (g b w1) as [[c|v] w2]; reflexivity.
Qed.

(** X13. [flatMap] on Eithers obeys the monad laws with [right]: it stops
    at a [Left] without running the callback, [right] after it changes
    nothing, and two chained [flatMap]s are one [flatMap] with the chained
    callback. *)
Theorem either_flatMap_monad_laws :
  forall (W G A B C : Type) (e : G) (this : Either G A)
         (f : A -> Eff W (Either G B)) (g : B -> Eff W (Either G C))
         (n : nat) (w : W),
    flatMap (Left e) (counted f) (n, w) = (Returned (Left e), (n, w))
    /\ flatMap this (pure right) w = (Returned this, w)
    /\ (e' <- flatMap this f ;; flatMap e' g) w
       = flatMap this (fun a => e' <- f a ;; flatMap e' g) w.
Proof.
  intros. repeat split; try (now destruct this).
Qed.

Lemma first_left_Right {E B} (es : list (Either E B)) (bs : list B) :
  Spec.first_left es = Right bs <-> es = List.map Right bs.
Proof.
  revert bs. induction es as [|[e|b] rest IH]; intros bs; cbn.
  - split; [now intros [= <-] | now destruct bs].
  - split; [discriminate | now destruct bs].
  - destruct (Spec.first_left rest) as [e|bs'] eqn:Hrest.
    + split; [discriminate|].
      destruct bs as [|b0 bs0]; [discriminate|]. cbn.
      intros [= -> H]. apply IH in H. discriminate.
    + split.
      * intros [= <-]. cbn. f_equal. now apply IH.
      * destruct bs as [|b0 bs0]; [discriminate|]. cbn.
        intros [= -> H]. apply IH in H. now injection H as ->.
Qed.

Lemma first_left_map_Left {E A B} (f : A -> Either E B) (aa : list A) (e : E) :
  Spec.first_left (List.map f aa) = Left e
  <-> exists pre x post,
        aa = pre ++ x :: post
        /\ f x = Left e
        /\ Forall (fun y => exists b, f y = Right b) pre.
Proof.
  induction aa as [|h t IH]; cbn.
  - split; [discriminate|].
    intros (pre & x & post & H & _). now destruct pre.
  - destruct (f h) as [e'|b] eqn:Hh.
    + split.
      * intros [= ->]. exists [], h, t. repeat split; auto.
      * intros ([|y pre] & x & post & H & Hx & Hpre).
        -- injection H as -> ->. congruence.
        -- injection H as -> _. inversion Hpre as [|? ? [b Hb] _]. congruence.
    + split.
      * intros H.
        destruct (Spec.first_left (List.map f t)) as [e'|bs] eqn:Ht;
          [|discriminate].
        injection H as ->.
        destruct (proj1 IH eq_refl) as (pre & x & post & -> & Hx & Hpre).
        exists (h :: pre), x, post. repeat split; eauto.
      * intros ([|y pre] & x & post & H & Hx & Hpre).
        -- injection H as -> ->. congruence.
        -- injection H as -> ->. inversion Hpre; subst.
           assert (Ht : Spec.first_left (List.map f (pre ++ x :: post))
                        = Left e).
           { apply IH. exists pre, x, post. auto. }
           now rewrite Ht.
Qed.

(** X14. [traverse] on Eithers with a function that only computes returns
    [Right bs] exactly when the images of the elements are the [Right]s of
    [bs], in their order, and [Left e] exactly when [e] is the image of
    the leftmost element whose image is a [Left]. *)
Theorem either_traverse_spec :
  forall (W E A B : Type) (aa : list A) (f : A -> Either E B) (w : W),
  exists r : Either E (list B),
    traverse aa (pure f) w = (Returned r, w)
    /\ (forall bs, r = Right bs <-> List.map f aa = List.map Right bs)
    /\ (forall e, r = Left e
        <-> exists pre x post,
              aa = pre ++ x :: post
              /\ f x = Left e
              /\ Forall (fun y => exists b, f y = Right b) pre).
Proof.
  intros. eexists. split; [apply either_traverse_pure|]. split.
  - intros bs. apply first_left_Right.
  - intros e. apply first_left_map_Left.
Qed.

(** X15. [sequence] on Eithers returns [Right bs] exactly when the
    elements are the [Right]s of [bs], and [Left e] exactly when the list
    is some [Right]s, then [Left e], then anything. *)
Theorem either_sequence_spec :
  forall (W E A : Type) (le : list (Either E A)) (w : W),
  exists r : Either E (list A),
    sequence le w = (Returned r, w)
    /\ (forall bs, r = Right bs <-> le = List.map Right bs)
    /\ (forall e, r = Left e
        <-> exists bs post, le = List.map Right bs ++ Left e :: post).
Proof.
  intros. eexists. split; [apply either_sequence_eq|]. split.
  - intros bs. apply first_left_Right.
  - intros e. rewrite <- (List.map_id le) at 1.
    rewrite first_left_map_Left. split.
    + intros (pre & x & post & -> & -> & Hpre).
      assert (Hbs : exists bs, pre = List.map Right bs).
      { clear -Hpre. induction Hpre as [|y pre [b ->] _ [bs ->]].
        - now exists [].
        - now exists (b :: bs). }
      destruct Hbs as (bs & ->). now exists bs, post.
    + intros (bs & post & ->).
      exists (List.map Right bs), (Left e), post. repeat split.
      apply Forall_forall. intros y Hy.
      apply in_map_iff in Hy as (b & <- & _). now exists b.
Qed.

(** The Either [traverse] with a logged callback, on any list. *)
Lemma either_traverse_logged {W E A B} (f : A -> Either E B)
  (aa log : list A) (w : W) :
  traverse aa (logged (pure f)) (log, w)
  = (Returned (Spec.first_left (List.map f aa)), (log ++ rev aa, w)).
Proof.
  unfold traverse. induction aa as [|h t IH].
  - cbn. now rewrite app_nil_r.
  - cbn [foldRight List.map rev]. rewrite (bind_returned _ _ _ _ _ IH).
    unfold bind at 1. rewrite logged_pure_run, either_map2_pure.
    rewrite app_assoc. cbn.
    destruct (f h), (Spec.first_left (List.map f t)); reflexivity.
Qed.

(** X16. [traverse] on Eithers fails fast in its result only.  With a
    callback that only computes, the calls made are exactly one per
    element of the list, from the last element to the first, also on the
    elements before and after a [Left]; the result is that of the
    unlogged callback: the leftmost [Left], or the [Right] of all the
    images in the order of the list. *)
Theorem either_traverse_calls_every_element :
  forall (W E A B : Type) (f : A -> Either E B) (aa log : list A) (w : W),
    traverse aa (logged (pure f)) (log, w)
    = (Returned (Spec.first_left (List.map f aa)), (log ++ rev aa, w))
    /\ fst (traverse aa (logged (pure f)) (log, w))
       = fst (traverse aa (pure f) w).
Proof.
  intros. rewrite either_traverse_logged, either_traverse_pure.
  now split.
Qed.

End EitherLaws.

(* ===================================================================== *)
(** ** Further properties of the worked examples of chapter 4 *)
(* ===================================================================== *)

Section ExampleLaws.
Import option_ts(Option(..)).
Import chapter_4 chapter_4.EitherListing(Either(..)).
Import chapter_4.PersonListing.

(** X17. [mkPerson] returns a [Right] exactly when the name is not empty
    and the age is not below zero, and then it holds the person of that
    name and age.  An empty name gives [Left("Name is empty.")] whatever
    the age is, so a bad age is reported only under a good name. *)
Theorem mkPerson_spec :
  forall (W number : Type) (lt_0 : number -> bool) (nm : string)
         (age : number) (w : W),
  exists r : Either string (Person (number := number)),
    mkPerson lt_0 nm age w = (Returned r, w)
    /\ (forall p, r = Right p
        <-> nm <> EmptyString /\ lt_0 age = false
            /\ p = new_Person (new_Name nm) (new_Age age))
    /\ (r = Left "Name is empty."%string <-> nm = EmptyString)
    /\ (r = Left "Age is out of range."%string
        <-> nm <> EmptyString /\ lt_0 age = true).
Proof.
  intros. unfold mkPerson. rewrite either_map2_pure.
  eexists. split; [reflexivity|].
  unfold mkName, mkAge, EitherListing.left, EitherListing.right.
  destruct (String.eqb_spec nm EmptyString) as [Hn|Hn];
    destruct (lt_0 age) eqn:Ha.
  all: repeat split; try discriminate; try congruence; auto.
  all: try (intros (H1 & H2 & H3); congruence).
  all: try (intros (H1 & H2); congruence).
  all: try (intros [= <-]; auto).
Qed.

Lemma listing_mean_nonempty {number} (sum : list number -> number)
  (divide : number -> nat -> number) (l : list number) :
  l <> [] ->
  OptionListing.mean sum divide l = Some (divide (sum l) (List.length l)).
Proof. now destruct l. Qed.

(** X18. [variance] returns [None] exactly on the empty list; on any
    other list it is [Some] of the mean of the squared distances to the
    mean. *)
Theorem variance_spec :
  forall (W number : Type) (sum : list number -> number)
         (divide : number -> nat -> number)
         (pow_diff_2 : number -> number -> number)
         (xs : list number) (w : W),
  exists r : Option number,
    OptionListing.variance sum divide pow_diff_2 xs w = (Returned r, w)
    /\ (r = None <-> xs = [])
    /\ (forall v, r = Some v
        <-> exists m,
              OptionListing.mean sum divide xs = Some m
              /\ v = divide (sum (List.map (fun x => pow_diff_2 x m) xs))
                       (List.length xs)).
Proof.
  intros. unfold OptionListing.variance.
  destruct xs as [|x xs].
  - exists None. repeat split; try discriminate.
    intros (m & H & _). discriminate.
  - rewrite (listing_mean_nonempty sum divide (x :: xs)) by discriminate.
    rewrite listing_flatMap_Some.
    set (m := divide (sum (x :: xs)) (List.length (x :: xs))).
    rewrite (listing_mean_nonempty sum divide
               (List.map (fun y => pow_diff_2 y m) (x :: xs)))
      by discriminate.
    rewrite List.length_map.
    eexists. split; [reflexivity|].
    split; [split; discriminate|].
    intros v. split.
    + intros [= <-]. now exists m.
    + intros (m' & [= <-] & ->). reflexivity.
Qed.

(** X19. Wrapping the [mean] that throws in the Option [Try] gives the
    [mean] that returns an Option; wrapping it in the Either [Try] gives
    the [mean] that returns an Either, with the [Error] that was thrown,
    of message "Attempt to take mean of empty list", in place of the
    string ["mean of empty list"]. *)
Theorem Try_mean :
  forall (W number : Type) (sum : list number -> number)
         (divide : number -> nat -> number) (xs : list number) (w : W),
    OptionListing.Try (fun _ => ExceptionListing.mean sum divide xs) w
    = (Returned (OptionListing.mean sum divide xs), w)
    /\ EitherListing.Try (fun _ => ExceptionListing.mean sum divide xs) w
       = (Returned
            match EitherListing.mean sum divide xs with
            | Left _ =>
                Left (mkError "Error" "Attempt to take mean of empty list")
            | Right m => Right m
            end, w)
    /\ (EitherListing.mean sum divide xs = Left "mean of empty list"%string
        <-> xs = []).
Proof.
  intros. destruct xs as [|x xs]; repeat split; try discriminate.
Qed.

End ExampleLaws.

(* ===================================================================== *)
(** ** Further properties of SimpleRNG *)
(* ===================================================================== *)

Section RNGLaws.
Import RNG_ts.

Lemma pow2_split (bits : Z) : 0 < bits -> 2 ^ bits = 2 * 2 ^ (bits - 1).
Proof. intros Hb. rewrite <- Z.pow_succ_r by lia. f_equal. lia. Qed.

(** [asIntN] changes its argument by a multiple of [2^bits]. *)
Lemma asIntN_congr (bits x : Z) :
  0 < bits -> exists k, asIntN bits x = x + k * 2 ^ bits.
Proof.
  intros Hb. unfold asIntN. cbv zeta.
  assert (Hp : 0 < 2 ^ bits) by (apply Z.pow_pos_nonneg; lia).
  pose proof (Z.div_mod x (2 ^ bits) ltac:(lia)) as Hdm.
  destruct (2 ^ (bits - 1) <=? x mod 2 ^ bits).
  - exists (- (x / 2 ^ bits) - 1). lia.
  - exists (- (x / 2 ^ bits)). lia.
Qed.

Lemma asIntN_fixed (bits x : Z) :
  0 < bits ->
  (asIntN bits x = x <-> - 2 ^ (bits - 1) <= x < 2 ^ (bits - 1)).
Proof.
  intros Hb. split.
  - intros <-. now apply asIntN_range.
  - intros Hx.
    pose proof (asIntN_range bits x Hb) as Hr.
    destruct (asIntN_congr bits x Hb) as (k & Hk).
    pose proof (pow2_split bits Hb) as H2.
    assert (Hp : 0 < 2 ^ (bits - 1)) by (apply Z.pow_pos_nonneg; lia).
    assert (k = 0) by nia. subst k. lia.
Qed.

Lemma asIntN_64_mod_48 (x : Z) : asIntN 64 x mod 2 ^ 48 = x mod 2 ^ 48.
Proof.
  destruct (asIntN_congr 64 x ltac:(lia)) as (k & ->).
  change (2 ^ 64) with (65536 * 2 ^ 48).
  rewrite Z.mul_assoc. apply Z_mod_plus_full.
Qed.

(** The seed after a draw, as the linear congruence. *)
Lemma nextInt_lcg (r : SimpleRNG) :
  seed (snd (nextInt r)) = (seed r * 25214903917 + 11) mod 2 ^ 48.
Proof. rewrite nextInt_seed. apply asIntN_64_mod_48. Qed.

(** X20. The 64-bit wrap does not show in the result: the successor's
    seed is [(seed * 0x5DEECE66D + 0xB) mod 2^48], the linear congruence
    on 48 bits, for every seed. *)
Theorem nextInt_linear_congruence :
  forall r : SimpleRNG,
    seed (snd (nextInt r)) = (seed r * 0x5deece66d + 0xb) mod 2 ^ 48.
Proof. exact nextInt_lcg. Qed.

(** X21. The number drawn is the upper 32 of the 48 bits of the new seed,
    read as a signed integer: taken modulo [2^32] it is the new seed
    without its 16 low bits, and it is negative exactly when bit 47 of the
    new seed is set. *)
Theorem nextInt_upper_bits :
  forall r : SimpleRNG,
    fst (nextInt r) mod 2 ^ 32 = seed (snd (nextInt r)) / 2 ^ 16
    /\ (fst (nextInt r) < 0 <-> 2 ^ 47 <= seed (snd (nextInt r))).
Proof.
  intros r. rewrite nextInt_value.
  assert (Hs : 0 <= seed (snd (nextInt r)) < 2 ^ 48).
  { rewrite nextInt_lcg. apply Z.mod_pos_bound. reflexivity. }
  set (s := seed (snd (nextInt r))) in *.
  assert (Hq : 0 <= s / 2 ^ 16 < 2 ^ 32).
  { split; [apply Z.div_pos; lia|].
    apply Z.div_lt_upper_bound; [reflexivity|].
    change (2 ^ 16 * 2 ^ 32) with (2 ^ 48). lia. }
  assert (H47 : 2 ^ 47 <= s <-> 2 ^ 31 <= s / 2 ^ 16).
  { change (2 ^ 47) with (2 ^ 31 * 2 ^ 16). split; intros H.
    - apply Z.div_le_lower_bound; lia.
    - pose proof (Z.mul_div_le s (2 ^ 16) ltac:(reflexivity)). nia. }
  unfold asIntN. cbv zeta. rewrite (Z.mod_small _ _ Hq).
  change (2 ^ (32 - 1)) with (2 ^ 31).
  destruct (Z.leb_spec (2 ^ 31) (s / 2 ^ 16)) as [Hge|Hlt].
  - split.
    + rewrite <- (Z_mod_plus_full _ 1). rewrite Z.mod_small; lia.
    + rewrite H47. lia.
  - split.
    + now apply Z.mod_small.
    + rewrite H47. lia.
Qed.

(** X22. Only the low 48 bits of the seed matter: two generators whose
    seeds agree modulo [2^48] draw the same number and have the same
    successor. *)
Theorem nextInt_low_48_bits :
  forall r1 r2 : SimpleRNG,
    seed r1 mod 2 ^ 48 = seed r2 mod 2 ^ 48 -> nextInt r1 = nextInt r2.
Proof.
  intros r1 r2 H.
  assert (Hm : forall r,
             Z.land (asIntN 64 (seed r * 0x5deece66d + 0xb)) 0xffffffffffff
             = (seed r mod 2 ^ 48 * 0x5deece66d + 0xb) mod 2 ^ 48).
  { intros r. rewrite mask48, asIntN_64_mod_48. symmetry.
    rewrite <- Z.add_mod_idemp_l by discriminate.
    rewrite Z.mul_mod_idemp_l by discriminate.
    now rewrite Z.add_mod_idemp_l by discriminate. }
  rewrite !nextInt_unfold, !Hm. now rewrite H.
Qed.

Lemma nextInt_low_48_bits_witness :
  nextInt (mkSimpleRNG 42) = nextInt (mkSimpleRNG (42 + 2 ^ 48)).
Proof.
  apply (nextInt_low_48_bits (mkSimpleRNG 42) (mkSimpleRNG (42 + 2 ^ 48))).
  reflexivity.
Defined.

(** X23. The constructor wraps the seed into the signed 64-bit range,
    keeping it modulo [2^64]; it keeps a seed as it is exactly when the
    seed is in that range; constructing again from a generator's seed
    gives the generator, which holds of every successor too. *)
Theorem SimpleRNG_constructor :
  forall (s : Z) (r : SimpleRNG),
    - 2 ^ 63 <= seed (new_SimpleRNG s) < 2 ^ 63
    /\ seed (new_SimpleRNG s) mod 2 ^ 64 = s mod 2 ^ 64
    /\ (seed (new_SimpleRNG s) = s <-> - 2 ^ 63 <= s < 2 ^ 63)
    /\ new_SimpleRNG (seed (new_SimpleRNG s)) = new_SimpleRNG s
    /\ new_SimpleRNG (seed (snd (nextInt r))) = snd (nextInt r).
Proof.
  intros s r. unfold new_SimpleRNG at 1 2 3. cbn [seed].
  pose proof (asIntN_range 64 s ltac:(lia)) as Hr.
  change (2 ^ (64 - 1)) with (2 ^ 63) in Hr.
  split; [exact Hr|]. split; [|split; [|split]].
  - destruct (asIntN_congr 64 s ltac:(lia)) as (k & ->).
    apply Z_mod_plus_full.
  - apply (asIntN_fixed 64 s). lia.
  - unfold new_SimpleRNG. cbn [seed]. f_equal.
    apply (asIntN_fixed 64). lia. exact Hr.
  - rewrite nextInt_unfold. cbn [snd]. unfold new_SimpleRNG. cbn [seed].
    f_equal. apply (asIntN_fixed 64); [lia|].
    apply (asIntN_range 64). lia.
Qed.

End RNGLaws.

(* ===================================================================== *)
(** ** Faults of callbacks *)
(* ===================================================================== *)

Section CallbackFaults.
Import option_ts(Option(..)).
Import chapter_4 chapter_4.EitherListing(Either(..)).

(** X24. The combinators catch nothing: when the callback throws [v] on
    the value held, [map] of option.ts, [flatMap] of the Option listing
    and [flatMap] of the Either listing throw the same [v] and leave the
    world as the callback left it.  [Try] around such a [map] returns
    [None]. *)
Theorem callback_fault_passes_through :
  forall (W A B E : Type) (a : A) (f : A -> Eff W B)
         (g : A -> Eff W (Option B)) (h : A -> Eff W (Either E B))
         (v : Value) (w w' : W),
    f a w = (Thrown v, w') ->
    g a w = (Thrown v, w') ->
    h a w = (Thrown v, w') ->
    option_ts.map (Some a) f w = (Thrown v, w')
    /\ OptionListing.flatMap (Some a) g w = (Thrown v, w')
    /\ EitherListing.flatMap (Right a) h w = (Thrown v, w')
    /\ OptionListing.Try (fun _ => option_ts.map (Some a) f) w
       = (Returned None, w').
Proof.
  intros W A B E a f g h v w w' Hf Hg Hh. repeat split.
  - now apply option_ts_map_Some_thrown.
  - now rewrite listing_flatMap_Some.
  - exact Hh.
  - unfold OptionListing.Try, try_catch.
    rewrite (bind_thrown _ _ _ _ _ (option_ts_map_Some_thrown _ _ _ _ _ Hf)).
    reflexivity.
Qed.

Lemma callback_fault_witness :
  option_ts.map (W := unit) (B := Z) (Some 1) (fun _ => throw (Str "boom")) tt
  = (Thrown (Str "boom"), tt)
  /\ OptionListing.flatMap (W := unit) (B := Z) (Some 1)
       (fun _ => throw (Str "boom")) tt
     = (Thrown (Str "boom"), tt)
  /\ EitherListing.flatMap (W := unit) (G := string) (B := Z) (Right 1)
       (fun _ => throw (Str "boom")) tt
     = (Thrown (Str "boom"), tt)
  /\ OptionListing.Try (W := unit)
       (fun _ => option_ts.map (B := Z) (Some 1)
                   (fun _ => throw (Str "boom"))) tt
     = (Returned None, tt).
Proof.
  apply (callback_fault_passes_through unit Z Z string 1
           (fun _ => throw (Str "boom")) (fun _ => throw (Str "boom"))
           (fun _ => throw (Str "boom")) (Str "boom") tt tt);
    reflexivity.
Defined.

End CallbackFaults.
